(** * Kids math game: the game engine of [src/App.js]

    A shallow embedding of the React component [App]: its eight state
    variables, the timer reference, the problem generator, the submit, start
    and reset handlers, the interval callback and the two effects.  The
    handlers are written in a state monad over the component and the part of
    the browser they talk to (the live intervals and [Math.random]).

    Numbers.  JavaScript numbers that the code keeps integral (score, time,
    operands) are [Z]; the answer of a problem, which the division case
    computes with [/], is a rational [Q].  The arithmetic is exact, as that
    of doubles is on integers below 2^53. *)

From Stdlib Require Import ZArith QArith Qround Bool List String Ascii Lia.
From ExtLib Require Import Structures.Monad Structures.MonadState.
From ExtLib Require Import Data.Monads.StateMonad.
Import ListNotations.
Import MonadNotation.
Local Open Scope monad_scope.
Local Open Scope Z_scope.

(* ------------------------------------------------------------------ *)
(** ** Data *)

(** The operator characters ['+'], ['-'], ['*'], ['/']. *)
Inductive Operator : Set := Plus | Minus | Times | Slash.

(** The five strings [problemType] ranges over. *)
Inductive ProblemType : Set :=
  addition | subtraction | multiplication | division | random.

Definition problemType_eqb (a b : ProblemType) : bool :=
  match a, b with
  | addition, addition | subtraction, subtraction
  | multiplication, multiplication | division, division
  | random, random => true
  | _, _ => false
  end.

(** The object [{ num1, num2, operator, answer }]. *)
Record Problem : Set := mkProblem {
  num1 : Z;
  num2 : Z;
  operator : Operator;
  answer : Q
}.

(** The three shapes of the feedback string [message]:
    [''], ['Correct! +30s'] and
    [`Incorrect! -10s. The answer was ${currentProblem.answer}`]. *)
Inductive Message : Set :=
  | NoMessage
  | CorrectMsg
  | IncorrectMsg (theAnswer : Q).

(** The component: the [useState] variables and [timerRef.current]
    ([None] is [null]; interval handles are positive, hence truthy). *)
Record Component : Type := mkComponent {
  score : Z;
  timeLeft : Z;
  currentProblem : option Problem;
  userAnswer : string;
  message : Message;
  isGameOver : bool;
  gameStarted : bool;
  problemType : ProblemType;
  timerRef : option positive
}.

(** A result of [Math.random()]: a number in the interval [0, 1). *)
Record UnitReal : Set := mkUnitReal {
  value : Q;
  value_range : Qle_bool 0 value && negb (Qle_bool 1 value) = true
}.

(** The browser as the component sees it: the intervals that are set and not
    yet cleared, the handle the next [setInterval] returns, and the sequence
    of numbers [Math.random] will return with the count of those drawn. *)
Record Browser : Type := mkBrowser {
  intervals : list positive;
  nextHandle : positive;
  randoms : nat -> UnitReal;
  drawn : nat
}.

Record World : Type := mkWorld {
  comp : Component;
  host : Browser
}.

Definition M : Type -> Type := state World.

(* ------------------------------------------------------------------ *)
(** ** State setters and browser calls *)

Definition update (f : World -> World) : M unit :=
  w <- get ;; put (f w).

Definition onComp (f : Component -> Component) : M unit :=
  update (fun w => mkWorld (f (comp w)) (host w)).

Definition onHost (f : Browser -> Browser) : M unit :=
  update (fun w => mkWorld (comp w) (f (host w))).

Definition read {A : Type} (f : Component -> A) : M A :=
  w <- get ;; ret (f (comp w)).

Definition setScore (v : Z) : M unit :=
  onComp (fun c => mkComponent v (timeLeft c) (currentProblem c)
    (userAnswer c) (message c) (isGameOver c) (gameStarted c)
    (problemType c) (timerRef c)).

Definition setTimeLeft (v : Z) : M unit :=
  onComp (fun c => mkComponent (score c) v (currentProblem c)
    (userAnswer c) (message c) (isGameOver c) (gameStarted c)
    (problemType c) (timerRef c)).

Definition setCurrentProblem (v : option Problem) : M unit :=
  onComp (fun c => mkComponent (score c) (timeLeft c) v
    (userAnswer c) (message c) (isGameOver c) (gameStarted c)
    (problemType c) (timerRef c)).

Definition setUserAnswer (v : string) : M unit :=
  onComp (fun c => mkComponent (score c) (timeLeft c) (currentProblem c)
    v (message c) (isGameOver c) (gameStarted c)
    (problemType c) (timerRef c)).

Definition setMessage (v : Message) : M unit :=
  onComp (fun c => mkComponent (score c) (timeLeft c) (currentProblem c)
    (userAnswer c) v (isGameOver c) (gameStarted c)
    (problemType c) (timerRef c)).

Definition setIsGameOver (v : bool) : M unit :=
  onComp (fun c => mkComponent (score c) (timeLeft c) (currentProblem c)
    (userAnswer c) (message c) v (gameStarted c)
    (problemType c) (timerRef c)).

Definition setGameStarted (v : bool) : M unit :=
  onComp (fun c => mkComponent (score c) (timeLeft c) (currentProblem c)
    (userAnswer c) (message c) (isGameOver c) v
    (problemType c) (timerRef c)).

Definition setProblemType (v : ProblemType) : M unit :=
  onComp (fun c => mkComponent (score c) (timeLeft c) (currentProblem c)
    (userAnswer c) (message c) (isGameOver c) (gameStarted c)
    v (timerRef c)).

Definition setTimerRef (v : option positive) : M unit :=
  onComp (fun c => mkComponent (score c) (timeLeft c) (currentProblem c)
    (userAnswer c) (message c) (isGameOver c) (gameStarted c)
    (problemType c) v).

(** The updater forms [setScore(prev => ...)] and [setTimeLeft(prev => ...)];
    the updater of the interval callback has effects of its own, so the
    second takes a computation. *)
Definition setScoreWith (f : Z -> Z) : M unit :=
  prevScore <- read score ;; setScore (f prevScore).

Definition setTimeLeftWith (f : Z -> M Z) : M unit :=
  prevTime <- read timeLeft ;; v <- f prevTime ;; setTimeLeft v.

(** [Math.random()]. *)
Definition mathRandom : M Q :=
  w <- get ;;
  onHost (fun b => mkBrowser (intervals b) (nextHandle b) (randoms b)
                     (S (drawn b))) ;;
  ret (value (randoms (host w) (drawn (host w)))).

(** [setInterval(callback, 1000)]: every interval of this component has the
    same callback, so only the handle is recorded. *)
Definition setInterval : M positive :=
  w <- get ;;
  let h := nextHandle (host w) in
  onHost (fun b => mkBrowser (h :: intervals b) (Pos.succ h) (randoms b)
                     (drawn b)) ;;
  ret h.

(** [clearInterval(h)]; clearing [null] or a handle that is not set does
    nothing. *)
Definition clearInterval (h : option positive) : M unit :=
  match h with
  | None => ret tt
  | Some id =>
      onHost (fun b => mkBrowser
                (filter (fun i => negb (Pos.eqb i id)) (intervals b))
                (nextHandle b) (randoms b) (drawn b))
  end.

(* ------------------------------------------------------------------ *)
(** ** [generateProblem] *)

(** [operators[i]]: [None] is [undefined]. *)
Definition arrayAt {A : Type} (l : list A) (i : Z) : option A :=
  if i <? 0 then None else nth_error l (Z.to_nat i).

(** [Math.floor(x * n)] for an integer [n]; the product is taken exactly
    (its rounding to a double leaves the result within 0 .. n-1 as well). *)
Definition floorTimes (x : Q) (n : Z) : Z := Qfloor (x * inject_Z n).

Definition push {A : Type} (cond : bool) (x : A) (l : list A) : list A :=
  if cond then l ++ [x] else l.

Definition generateProblem : M unit :=
  r1 <- mathRandom ;;
  let num1 := floorTimes r1 10 + 1 in
  r2 <- mathRandom ;;
  let num2 := floorTimes r2 10 + 1 in
  ptype <- read problemType ;;
  let isRandom := problemType_eqb ptype random in
  let operators := [] in
  let operators :=
    push (problemType_eqb ptype addition || isRandom) Plus operators in
  let operators :=
    push (problemType_eqb ptype subtraction || isRandom) Minus operators in
  let operators :=
    push (problemType_eqb ptype multiplication || isRandom) Times operators in
  let operators :=
    push (problemType_eqb ptype division || isRandom) Slash operators in
  r3 <- mathRandom ;;
  let operator := arrayAt operators (floorTimes r3 (Z.of_nat (List.length operators))) in
  setCurrentProblem (Some
    match operator with
    | Some Plus => mkProblem num1 num2 Plus (inject_Z (num1 + num2))
    | Some Minus =>
        let '(num1, num2) :=
          if num1 <? num2 then (num2, num1) else (num1, num2) in
        mkProblem num1 num2 Minus (inject_Z (num1 - num2))
    | Some Times => mkProblem num1 num2 Times (inject_Z (num1 * num2))
    | Some Slash =>
        let product := num1 * num2 in
        let num1 := product in
        mkProblem num1 num2 Slash (inject_Z num1 / inject_Z num2)%Q
    | None => mkProblem num1 num2 Plus (inject_Z (num1 + num2))
    end).

(* ------------------------------------------------------------------ *)
(** ** [parseInt(userAnswer, 10)]

    The library function as ECMAScript defines it for radix 10: leading
    white space is skipped, one sign is read, then the longest run of decimal
    digits; with no digit the result is [NaN], here [None].  A string is a
    sequence of code units below 256.  The value is the exact integer; the
    rounding JavaScript applies above 2^53 makes no difference to a
    comparison with the answer of a generated problem, which is at most
    100. *)

Definition codeOf (c : ascii) : Z := Z.of_nat (nat_of_ascii c).

Definition isWhiteSpace (c : ascii) : bool :=
  let n := codeOf c in
  ((9 <=? n) && (n <=? 13)) || (n =? 32) || (n =? 160).

Fixpoint trimStart (s : string) : string :=
  match s with
  | String c rest => if isWhiteSpace c then trimStart rest else s
  | EmptyString => EmptyString
  end.

Definition digitOf (c : ascii) : option Z :=
  let n := codeOf c in
  if (48 <=? n) && (n <=? 57) then Some (n - 48) else None.

Fixpoint digits (acc : option Z) (s : string) : option Z :=
  match s with
  | String c rest =>
      match digitOf c with
      | Some d =>
          digits (Some (10 * match acc with Some a => a | None => 0 end + d))
                 rest
      | None => acc
      end
  | EmptyString => acc
  end.

Definition parseInt (s : string) : option Z :=
  let s := trimStart s in
  let '(sign, s) :=
    match s with
    | String "-"%char rest => (-1, rest)
    | String "+"%char rest => (1, rest)
    | _ => (1, s)
    end in
  match digits None s with
  | Some n => Some (sign * n)
  | None => None
  end.

(** [parsedAnswer === currentProblem.answer]; [NaN] equals nothing. *)
Definition strictEq (parsedAnswer : option Z) (a : Q) : bool :=
  match parsedAnswer with
  | Some z => Qeq_bool (inject_Z z) a
  | None => false
  end.

(* ------------------------------------------------------------------ *)
(** ** Handlers *)

Definition handleAnswerSubmit : M unit :=
  c <- read (fun c => c) ;;
  match currentProblem c with
  | None => ret tt
  | Some problem =>
      if negb (gameStarted c) || isGameOver c then ret tt
      else
        let parsedAnswer := parseInt (userAnswer c) in
        (if strictEq parsedAnswer (answer problem) then
           setScoreWith (fun prevScore => prevScore + 1) ;;
           setTimeLeftWith (fun prevTime => ret (prevTime + 30)) ;;
           setMessage CorrectMsg
         else
           setTimeLeftWith (fun prevTime => ret (Z.max 0 (prevTime - 10))) ;;
           setMessage (IncorrectMsg (answer problem))) ;;
        setUserAnswer EmptyString ;;
        generateProblem
  end.

Definition startGame : M unit :=
  setScore 0 ;;
  setTimeLeft 60 ;;
  setIsGameOver false ;;
  setGameStarted true ;;
  setMessage NoMessage ;;
  setUserAnswer EmptyString ;;
  generateProblem.

Definition resetGame : M unit :=
  setGameStarted false ;;
  setIsGameOver false ;;
  setScore 0 ;;
  setTimeLeft 60 ;;
  setMessage NoMessage ;;
  setUserAnswer EmptyString ;;
  setCurrentProblem None ;;
  h <- read timerRef ;;
  match h with
  | Some _ => clearInterval h ;; setTimerRef None
  | None => ret tt
  end.

(** The callback given to [setInterval]. *)
Definition timerCallback : M unit :=
  setTimeLeftWith (fun prevTime =>
    if prevTime <=? 1 then
      h <- read timerRef ;;
      clearInterval h ;;
      setIsGameOver true ;;
      setGameStarted false ;;
      ret 0
    else ret (prevTime - 1)).

(* ------------------------------------------------------------------ *)
(** ** Effects *)

(** The body of the timer effect. *)
Definition timerEffect : M unit :=
  c <- read (fun c => c) ;;
  if gameStarted c && negb (isGameOver c) then
    (match timerRef c with
     | Some _ => clearInterval (timerRef c)
     | None => ret tt
     end) ;;
    h <- setInterval ;;
    setTimerRef (Some h)
  else if negb (gameStarted c) || isGameOver c then
    match timerRef c with
    | Some _ => clearInterval (timerRef c) ;; setTimerRef None
    | None => ret tt
    end
  else ret tt.

(** The cleanup function the timer effect returns. *)
Definition timerCleanup : M unit :=
  h <- read timerRef ;;
  match h with
  | Some _ => clearInterval h
  | None => ret tt
  end.

(** The body of the effect that generates a problem (the focus call is
    presentation and left out). *)
Definition problemEffect : M unit :=
  c <- read (fun c => c) ;;
  if gameStarted c && negb (isGameOver c) then generateProblem else ret tt.

(** What React does after a handler has run, given the component [prev] of
    the previous render: an effect whose dependency list changed runs again,
    cleanups first, then the bodies in the order of the source. *)
Definition runEffects (prev : Component) : M unit :=
  c <- read (fun c => c) ;;
  let flagsChanged :=
    negb (Bool.eqb (gameStarted prev) (gameStarted c))
    || negb (Bool.eqb (isGameOver prev) (isGameOver c)) in
  let typeChanged :=
    negb (problemType_eqb (problemType prev) (problemType c)) in
  (if flagsChanged then timerCleanup else ret tt) ;;
  (if flagsChanged then timerEffect else ret tt) ;;
  (if flagsChanged || typeChanged then problemEffect else ret tt).

(* ------------------------------------------------------------------ *)
(** ** The session as a transition system *)

(** What can happen to the component: the four buttons and the form of the
    source, and the browser firing the interval. *)
Inductive Event : Set :=
  | Start                             (* onClick={startGame} *)
  | Tick                              (* an interval of the component fires *)
  | TypeAnswer (text : string)        (* onChange of the input *)
  | Submit                            (* onSubmit={handleAnswerSubmit} *)
  | Reset                             (* onClick={resetGame} *)
  | SelectType (t : ProblemType).     (* onClick of a type button *)

(** The browser runs the callback only of an interval that is set. *)
Definition intervalFires : M unit :=
  w <- get ;;
  match intervals (host w) with
  | [] => ret tt
  | _ :: _ => timerCallback
  end.

Definition handler (e : Event) : M unit :=
  match e with
  | Start => startGame
  | Tick => intervalFires
  | TypeAnswer text => setUserAnswer text
  | Submit => handleAnswerSubmit
  | Reset => resetGame
  | SelectType t => setProblemType t
  end.

Definition dispatch (e : Event) : M unit :=
  prev <- read (fun c => c) ;;
  handler e ;;
  runEffects prev.

Definition step (e : Event) (w : World) : World := execState (dispatch e) w.

Definition run (es : list Event) (w : World) : World :=
  fold_left (fun w e => step e w) es w.

(** The first render: the [useState] defaults, no timer, nothing drawn. *)
Definition initial (rs : nat -> UnitReal) : World :=
  mkWorld (mkComponent 0 60 None EmptyString NoMessage false false random None)
          (mkBrowser [] 1%positive rs 0%nat).

Inductive reachable : World -> Prop :=
  | reach_initial rs : reachable (initial rs)
  | reach_step e w : reachable w -> reachable (step e w).

(** The transitions of the specification in terms of the events. *)
Definition tick : World -> World := step Tick.
Definition start : World -> World := step Start.
Definition reset : World -> World := step Reset.
Definition submitAnswer (rawInput : string) (w : World) : World :=
  step Submit (step (TypeAnswer rawInput) w).

(** The phase the two flags encode, as the three screens of the render. *)
Inductive Phase : Set := IDLE | PLAYING | OVER.

Definition phase (w : World) : Phase :=
  if isGameOver (comp w) then OVER
  else if gameStarted (comp w) then PLAYING
  else IDLE.

(* ------------------------------------------------------------------ *)
(** ** Vocabulary of the statements *)

(** The problem the next call of [generateProblem] installs. *)
Definition nextProblem (w : World) : option Problem :=
  currentProblem (comp (execState generateProblem w)).

(** What holds of every generated problem: the answer is a non-negative
    integer; a subtraction has its larger operand first; a division has a
    first operand that is the answer times the second. *)
Definition wellFormed (p : Problem) : Prop :=
  (exists z, (answer p == inject_Z z)%Q /\ 0 <= z /\
             (operator p = Slash -> num1 p = z * num2 p)) /\
  (operator p = Minus -> num1 p >= num2 p) /\
  (operator p = Slash -> 1 <= num2 p /\ num1 p mod num2 p = 0).

(** The world after [generateProblem] has installed [p]. *)
Definition withProblem (p : Problem) (w : World) : World :=
  let c := comp w in
  let b := host w in
  mkWorld
    (mkComponent (score c) (timeLeft c) (Some p) (userAnswer c) (message c)
       (isGameOver c) (gameStarted c) (problemType c) (timerRef c))
    (mkBrowser (intervals b) (nextHandle b) (randoms b) (3 + drawn b)%nat).

(** Per screen: while playing, exactly the interval [timerRef] holds is
    set and a problem is shown; otherwise no interval is set.  The start
    screen has the defaults; the game-over screen has no time left and
    still holds the last problem. *)
Definition Inv (w : World) : Prop :=
  let c := comp w in
  0 <= timeLeft c /\ 0 <= score c /\
  match gameStarted c, isGameOver c with
  | true, true => False
  | true, false =>
      (exists h, timerRef c = Some h /\ intervals (host w) = [h]) /\
      currentProblem c <> None
  | false, true =>
      timerRef c = None /\ intervals (host w) = [] /\
      timeLeft c = 0 /\ currentProblem c <> None
  | false, false =>
      timerRef c = None /\ intervals (host w) = [] /\
      timeLeft c = 60 /\ currentProblem c = None /\ score c = 0
  end.

(** A sample session.  The first twelve random numbers are listed, the
    rest are 1/2; [Start] draws six of them (the handler and the effect each
    generate a problem).  The problems it shows are 3 + 4, 9 - 3, 10 / 1 and
    then 6 * 6 again and again, so the typed answer 0 is always wrong. *)
Definition sampleNumbers : list UnitReal :=
  [ mkUnitReal (9 # 10) eq_refl; mkUnitReal (1 # 2) eq_refl;
    mkUnitReal (3 # 4) eq_refl;
    mkUnitReal (1 # 4) eq_refl; mkUnitReal (3 # 10) eq_refl;
    mkUnitReal (1 # 10) eq_refl;
    mkUnitReal (2 # 10) eq_refl; mkUnitReal (8 # 10) eq_refl;
    mkUnitReal (3 # 10) eq_refl;
    mkUnitReal (99 # 100) eq_refl; mkUnitReal (0 # 1) eq_refl;
    mkUnitReal (99 # 100) eq_refl ].

Definition sampleRandoms (n : nat) : UnitReal :=
  nth n sampleNumbers (mkUnitReal (1 # 2) eq_refl).

Definition wrong (n : nat) : list Event :=
  List.concat (repeat [TypeAnswer "0"; Submit] n).

Definition fresh : World := initial sampleRandoms.
Definition started : World := run [Start] fresh.
Definition tenLeft : World := run (Start :: wrong 5) fresh.
Definition fiveLeft : World := run (Start :: wrong 5 ++ repeat Tick 5) fresh.
Definition oneLeft : World := run (Start :: wrong 5 ++ repeat Tick 9) fresh.
Definition finished : World := run (Start :: wrong 5 ++ repeat Tick 10) fresh.
Definition outOfTime : World := run (Start :: wrong 6) fresh.

(* ------------------------------------------------------------------ *)
(** ** Vocabulary of the further properties *)

(** The array [operators] that [generateProblem] fills for a problem
    type. *)
Definition operatorsOf (t : ProblemType) : list Operator :=
  let isRandom := problemType_eqb t random in
  push (problemType_eqb t division || isRandom) Slash
    (push (problemType_eqb t multiplication || isRandom) Times
       (push (problemType_eqb t subtraction || isRandom) Minus
          (push (problemType_eqb t addition || isRandom) Plus []))).

(** The object the [switch] of [generateProblem] builds from the selected
    operator ([None] is [undefined]) and the two numbers drawn. *)
Definition build (op : option Operator) (a b : Z) : Problem :=
  match op with
  | Some Plus => mkProblem a b Plus (inject_Z (a + b))
  | Some Minus =>
      let '(x, y) := if a <? b then (b, a) else (a, b) in
      mkProblem x y Minus (inject_Z (x - y))
  | Some Times => mkProblem a b Times (inject_Z (a * b))
  | Some Slash => mkProblem (a * b) b Slash (inject_Z (a * b) / inject_Z b)%Q
  | None => mkProblem a b Plus (inject_Z (a + b))
  end.

(** The value of the expression [num1 operator num2] the game screen
    shows. *)
Definition shownValue (p : Problem) : Q :=
  match operator p with
  | Plus => inject_Z (num1 p) + inject_Z (num2 p)
  | Minus => inject_Z (num1 p) - inject_Z (num2 p)
  | Times => inject_Z (num1 p) * inject_Z (num2 p)
  | Slash => inject_Z (num1 p) / inject_Z (num2 p)
  end%Q.

(** The condition under which the render shows the game screen. *)
Definition showsGame (c : Component) : bool :=
  gameStarted c && negb (isGameOver c).

(** The component with another problem type or time. *)
Definition withType (t : ProblemType) (c : Component) : Component :=
  mkComponent (score c) (timeLeft c) (currentProblem c) (userAnswer c)
    (message c) (isGameOver c) (gameStarted c) t (timerRef c).

Definition withTime (t : Z) (c : Component) : Component :=
  mkComponent (score c) t (currentProblem c) (userAnswer c)
    (message c) (isGameOver c) (gameStarted c) (problemType c) (timerRef c).

(** A string that does not go on with a decimal digit. *)
Definition noDigitAhead (s : string) : bool :=
  match s with
  | EmptyString => true
  | String c _ => match digitOf c with Some _ => false | None => true end
  end.

(** A string of white space only. *)
Fixpoint allWhiteSpace (s : string) : bool :=
  match s with
  | EmptyString => true
  | String c rest => isWhiteSpace c && allWhiteSpace rest
  end.

(* ------------------------------------------------------------------ *)
(** ** The model at work *)

Example parseInt_samples :
  parseInt "42" = Some 42 /\ parseInt "  -12.5" = Some (-12) /\
  parseInt "+7" = Some 7 /\ parseInt "007" = Some 7 /\
  parseInt "1e3" = Some 1 /\
  parseInt EmptyString = None /\ parseInt "abc" = None /\ parseInt "-" = None.
Proof. repeat split. Qed.

Example started_state :
  comp started =
    mkComponent 0 60 (Some (mkProblem 3 4 Plus (inject_Z 7))) EmptyString
      NoMessage false true random (Some 1%positive)
  /\ intervals (host started) = [1%positive]
  /\ drawn (host started) = 6%nat.
Proof. repeat split. Qed.

Example tenLeft_state :
  comp tenLeft =
    mkComponent 0 10 (Some (mkProblem 6 6 Times (inject_Z 36))) EmptyString
      (IncorrectMsg (inject_Z 36)) false true random (Some 1%positive).
Proof. vm_compute. reflexivity. Qed.

Example finished_state :
  comp finished =
    mkComponent 0 0 (Some (mkProblem 6 6 Times (inject_Z 36))) EmptyString
      (IncorrectMsg (inject_Z 36)) true false random None
  /\ intervals (host finished) = [].
Proof. vm_compute. split; reflexivity. Qed.

(* ------------------------------------------------------------------ *)
(** ** Facts about the generator *)

Lemma value_bounds (u : UnitReal) : (0 <= value u)%Q /\ (value u < 1)%Q.
Proof.
  destruct u as [q Hq]; simpl.
  apply andb_true_iff in Hq as [H0 H1].
  apply Qle_bool_iff in H0.
  apply negb_true_iff in H1.
  split; [exact H0|].
  apply Qnot_le_lt. intro H. apply Qle_bool_iff in H. congruence.
Qed.

(** [Math.floor(Math.random() * n)] lies in 0 .. n-1. *)
Lemma floorTimes_range (u : UnitReal) (n : Z) :
  0 < n -> 0 <= floorTimes (value u) n < n.
Proof.
  intros Hn. destruct (value_bounds u) as [H0 H1].
  unfold floorTimes.
  assert (Hn' : (0 < inject_Z n)%Q) by (change (inject_Z 0 < inject_Z n)%Q; rewrite <- Zlt_Qlt; exact Hn).
  split.
  - change 0 with (Qfloor (inject_Z 0)).
    apply Qfloor_resp_le.
    apply Qmult_le_0_compat; [exact H0 | apply Qlt_le_weak; exact Hn'].
  - rewrite Zlt_Qlt.
    apply Qle_lt_trans with (value u * inject_Z n)%Q; [apply Qfloor_le|].
    setoid_replace (inject_Z n) with (1 * inject_Z n)%Q at 2 by ring.
    apply Qmult_lt_compat_r; assumption.
Qed.

Section Branches.
Variables a b : Z.
Hypothesis Ha : 1 <= a.
Hypothesis Hb : 1 <= b.

Lemma wellFormed_plus :
  wellFormed (mkProblem a b Plus (inject_Z (a + b))).
Proof using Ha Hb.
  repeat split; simpl; try discriminate.
  exists (a + b); repeat split; [lia | discriminate].
Qed.

Lemma wellFormed_minus :
  wellFormed
    (let '(x, y) := if a <? b then (b, a) else (a, b) in
     mkProblem x y Minus (inject_Z (x - y))).
Proof using Ha Hb.
  destruct (Z.ltb_spec a b); repeat split; simpl; try discriminate; try lia.
  - exists (b - a); repeat split; [lia | discriminate].
  - exists (a - b); repeat split; [lia | discriminate].
Qed.

Lemma wellFormed_times :
  wellFormed (mkProblem a b Times (inject_Z (a * b))).
Proof using Ha Hb.
  repeat split; simpl; try discriminate.
  exists (a * b); repeat split; [nia | discriminate].
Qed.

Lemma wellFormed_slash :
  wellFormed
    (mkProblem (a * b) b Slash (inject_Z (a * b) / inject_Z b)%Q).
Proof using Ha Hb.
  repeat split; simpl; try discriminate; try lia.
  - exists a; repeat split; [| lia].
    rewrite inject_Z_mult. apply Qdiv_mult_l.
    intro H. apply (inject_Z_injective b 0) in H. lia.
  - apply Z.mod_mul. lia.
Qed.
End Branches.

(** Evaluate an array lookup at a known index. *)
Ltac lookup :=
  match goal with
  | |- context [arrayAt ?l ?i] =>
      let r := eval vm_compute in (arrayAt l i) in
      change (arrayAt l i) with r
  end.

Lemma generateProblem_run (w : World) :
  exists p, wellFormed p /\ nextProblem w = Some p /\
            runState generateProblem w = (tt, withProblem p w).
Proof.
  unfold nextProblem, execState.
  destruct w as [c b].
  pose proof (floorTimes_range (randoms b (drawn b)) 10 eq_refl) as R1.
  pose proof (floorTimes_range (randoms b (S (drawn b))) 10 eq_refl) as R2.
  pose proof (floorTimes_range (randoms b (S (S (drawn b)))) 1 eq_refl) as R31.
  pose proof (floorTimes_range (randoms b (S (S (drawn b)))) 4 eq_refl) as R34.
  unfold generateProblem, withProblem.
  cbn -[floorTimes Z.add Z.mul Z.sub Qdiv inject_Z Z.ltb].
  eexists; split; [| split; reflexivity].
  set (x := floorTimes (value (randoms b (drawn b))) 10 + 1).
  set (y := floorTimes (value (randoms b (S (drawn b)))) 10 + 1).
  assert (Hx : 1 <= x) by (subst x; lia).
  assert (Hy : 1 <= y) by (subst y; lia).
  destruct (problemType c); cbn -[floorTimes Z.add Z.mul Z.sub Qdiv inject_Z Z.ltb].
  1-4: replace (floorTimes (value (randoms b (S (S (drawn b))))) 1) with 0 by lia.
  5: set (k := floorTimes (value (randoms b (S (S (drawn b))))) 4) in *;
     assert (Hk : k = 0 \/ k = 1 \/ k = 2 \/ k = 3) by lia;
     destruct Hk as [-> | [-> | [-> | ->]]].
  all: lookup; cbv iota beta;
       auto using wellFormed_plus, wellFormed_minus, wellFormed_times,
                  wellFormed_slash.
Qed.

(* ------------------------------------------------------------------ *)
(** ** The invariant of the reachable states *)

(** Run the monadic code symbolically; a call of the generator is replaced
    by its result. *)
Ltac generated :=
  match goal with
  | |- context [runState generateProblem ?W] =>
      let p := fresh "p" in
      let Hp := fresh "Hp" in
      let Hn := fresh "Hn" in
      let E := fresh "E" in
      destruct (generateProblem_run W) as (p & Hp & Hn & E);
      rewrite E; clear E
  end.

Lemma problemType_eqb_refl t : problemType_eqb t t = true.
Proof. destruct t; reflexivity. Qed.

Ltac exec :=
  repeat progress
    (cbn -[generateProblem Z.add Z.sub Z.max Z.leb Z.ltb parseInt strictEq];
     unfold withProblem;
     rewrite ?problemType_eqb_refl;
     try generated).

Lemma Inv_initial rs : Inv (initial rs).
Proof. unfold Inv; simpl; repeat split; lia. Qed.

Ltac close :=
  repeat split; try lia; try discriminate; try congruence;
  try (eexists; split; reflexivity).

Lemma Inv_step e w : Inv w -> Inv (step e w).
Proof.
  destruct w as [[sc tl cp ua msg go gs pt tr] [ivs nh rs dr]].
  unfold Inv; simpl. intros (Htl & Hsc & H).
  destruct e; unfold step, dispatch, handler, execState.
  - (* Start *)
    unfold startGame.
    destruct gs, go; try contradiction.
    + destruct H as [(h & -> & ->) Hcp]. exec. close.
    + destruct H as (-> & -> & _). exec. close.
    + destruct H as (-> & -> & _). exec. close.
  - (* Tick *)
    unfold intervalFires, timerCallback.
    destruct gs, go; try contradiction.
    + destruct H as [(h & -> & ->) Hcp]. exec.
      destruct (Z.leb_spec tl 1); exec; rewrite ?Pos.eqb_refl; exec; close.
    + destruct H as (-> & -> & -> & Hcp). exec. close.
    + destruct H as (-> & -> & -> & -> & ->). exec. close.
  - (* TypeAnswer *)
    destruct gs, go; try contradiction; exec; close; tauto.
  - (* Submit *)
    unfold handleAnswerSubmit.
    destruct gs, go; try contradiction.
    + destruct H as [(h & -> & ->) Hcp].
      destruct cp as [problem|]; [|congruence]. exec.
      destruct (strictEq (parseInt ua) (answer problem)); exec; close.
    + destruct cp; exec; close; tauto.
    + destruct cp; exec; close; tauto.
  - (* Reset *)
    unfold resetGame.
    destruct gs, go; try contradiction.
    + destruct H as [(h & -> & ->) Hcp]. exec. rewrite ?Pos.eqb_refl. exec. close.
    + destruct H as (-> & -> & -> & Hcp). exec. close.
    + destruct H as (-> & -> & -> & -> & ->). exec. close.
  - (* SelectType *)
    destruct gs, go; try contradiction.
    + destruct H as [(h & -> & ->) Hcp]. exec.
      destruct (problemType_eqb pt t); exec; close.
    + exec. destruct (problemType_eqb pt t); exec; close; tauto.
    + exec. destruct (problemType_eqb pt t); exec; close; tauto.
Qed.

Theorem reachable_Inv w : reachable w -> Inv w.
Proof.
  induction 1 as [rs | e w _ IH]; [apply Inv_initial | apply Inv_step, IH].
Qed.

Lemma reachable_run es w : reachable w -> reachable (run es w).
Proof.
  revert w. induction es as [| e es IH]; intros w Hw; simpl.
  - exact Hw.
  - apply IH, reach_step, Hw.
Qed.

(** The generated problem depends on the problem type and the browser
    only. *)
Lemma nextProblem_frame c c' b :
  problemType c = problemType c' ->
  nextProblem (mkWorld c b) = nextProblem (mkWorld c' b).
Proof.
  intros E. unfold nextProblem, execState, generateProblem.
  cbn -[floorTimes Z.add Z.mul Z.sub Qdiv inject_Z Z.ltb arrayAt].
  rewrite E. reflexivity.
Qed.

Lemma phase_PLAYING w :
  phase w = PLAYING ->
  gameStarted (comp w) = true /\ isGameOver (comp w) = false.
Proof.
  unfold phase. destruct (isGameOver (comp w)), (gameStarted (comp w));
    intros H; try discriminate H; split; reflexivity.
Qed.

(* ------------------------------------------------------------------ *)
(** ** An incorrect answer (C1) *)

(** C1, as stated, fails: in the sample session with 5 seconds left, the
    wrong answer 3 to the problem 6 * 6 leaves 0 seconds and the session is
    still PLAYING after the submission, not OVER. *)
Lemma incorrect_at_five_keeps_playing :
  reachable fiveLeft /\
  phase fiveLeft = PLAYING /\
  timeLeft (comp fiveLeft) = 5 /\
  currentProblem (comp fiveLeft) = Some (mkProblem 6 6 Times (inject_Z 36)) /\
  parseInt "3" = Some 3 /\
  timeLeft (comp (submitAnswer "3" fiveLeft)) = 0 /\
  phase (submitAnswer "3" fiveLeft) = PLAYING /\
  phase (submitAnswer "3" fiveLeft) <> OVER.
Proof.
  split; [apply reachable_run, reach_initial |].
  repeat split; try (vm_compute; reflexivity).
  vm_compute; discriminate.
Qed.

(** C1, amended: in a PLAYING session with a current problem, an answer that
    is not the problem's answer sets the time to max(0, time - 10) and the
    message to the incorrect-answer message carrying the right answer.  The
    session is still PLAYING after the submission, also when no time is
    left; in a reachable session with at most 10 seconds before, the tick
    that follows ends the game. *)
Theorem incorrect_answer w rawInput problem :
  phase w = PLAYING ->
  currentProblem (comp w) = Some problem ->
  strictEq (parseInt rawInput) (answer problem) = false ->
  let w' := submitAnswer rawInput w in
  timeLeft (comp w') = Z.max 0 (timeLeft (comp w) - 10) /\
  message (comp w') = IncorrectMsg (answer problem) /\
  phase w' = PLAYING /\
  (reachable w -> timeLeft (comp w) <= 10 -> phase (tick w') = OVER).
Proof.
  intros Hph Hcp Hne.
  destruct (phase_PLAYING w Hph) as [Hgs Hgo].
  assert (Hinv : reachable w -> Inv w) by apply reachable_Inv.
  destruct w as [[sc tl cp ua msg go gs pt tr] [ivs nh rs dr]].
  simpl in Hcp, Hgs, Hgo. subst cp gs go.
  unfold submitAnswer, tick, step, dispatch, handler, execState,
    handleAnswerSubmit, intervalFires, timerCallback.
  exec. rewrite Hne. exec.
  repeat split.
  intros Hr Htl. apply Hinv in Hr. unfold Inv in Hr; simpl in Hr.
  destruct Hr as (_ & _ & (h & -> & ->) & _). exec.
  destruct (Z.leb_spec (Z.max 0 (tl - 10)) 1); [| lia].
  exec. reflexivity.
Qed.

Lemma incorrect_answer_witness :
  phase fiveLeft = PLAYING /\
  currentProblem (comp fiveLeft) = Some (mkProblem 6 6 Times (inject_Z 36)) /\
  strictEq (parseInt "3") (inject_Z 36) = false /\
  timeLeft (comp (submitAnswer "3" fiveLeft)) = 0 /\
  message (comp (submitAnswer "3" fiveLeft)) = IncorrectMsg (inject_Z 36) /\
  phase (submitAnswer "3" fiveLeft) = PLAYING /\
  phase (tick (submitAnswer "3" fiveLeft)) = OVER.
Proof.
  destruct (incorrect_answer fiveLeft "3" (mkProblem 6 6 Times (inject_Z 36))
              eq_refl eq_refl eq_refl) as (H1 & H2 & H3 & H4).
  split; [reflexivity |]. split; [reflexivity |]. split; [reflexivity |].
  split; [exact H1 |]. split; [exact H2 |]. split; [exact H3 |].
  apply H4; [apply reachable_run, reach_initial | vm_compute; discriminate].
Defined.

(* ------------------------------------------------------------------ *)
(** ** No time left and the phase (C2) *)

(** C2, as stated, fails: after [Start] and six wrong answers the session has
    0 seconds left and is PLAYING. *)
Lemma zero_time_while_playing :
  reachable outOfTime /\ timeLeft (comp outOfTime) = 0 /\
  phase outOfTime = PLAYING /\ phase outOfTime <> OVER.
Proof.
  split; [apply reachable_run, reach_initial |].
  repeat split; try (vm_compute; reflexivity).
  vm_compute; discriminate.
Qed.

(** C2, amended: in every reachable state with no time left the phase is
    OVER or PLAYING, never IDLE, and one tick later it is OVER; conversely a
    session that is OVER has no time left. *)
Theorem zero_time_phase w :
  reachable w ->
  (timeLeft (comp w) = 0 ->
     (phase w = OVER \/ phase w = PLAYING) /\ phase (tick w) = OVER) /\
  (phase w = OVER -> timeLeft (comp w) = 0).
Proof.
  intros Hr. apply reachable_Inv in Hr.
  destruct w as [[sc tl cp ua msg go gs pt tr] [ivs nh rs dr]].
  unfold Inv in Hr; simpl in Hr. destruct Hr as (Htl & Hsc & H).
  unfold phase, tick, step, dispatch, handler, execState, intervalFires,
    timerCallback.
  destruct gs, go; try contradiction; simpl.
  - destruct H as [(h & -> & ->) Hcp]. split; [| discriminate].
    intros ->. exec. auto.
  - destruct H as (-> & -> & -> & Hcp). exec. auto.
  - destruct H as (-> & -> & -> & -> & ->). split; discriminate.
Qed.

Lemma zero_time_phase_witness :
  reachable outOfTime /\
  timeLeft (comp outOfTime) = 0 /\
  (phase outOfTime = OVER \/ phase outOfTime = PLAYING) /\
  phase (tick outOfTime) = OVER /\
  (phase outOfTime = OVER -> timeLeft (comp outOfTime) = 0).
Proof.
  assert (Hr : reachable outOfTime) by apply reachable_run, reach_initial.
  destruct (zero_time_phase outOfTime Hr) as [H1 H2].
  split; [exact Hr |]. split; [reflexivity |].
  destruct (H1 eq_refl) as [H3 H4].
  split; [exact H3 |]. split; [exact H4 | exact H2].
Defined.

(* ------------------------------------------------------------------ *)
(** ** The current problem and the phase (C3) *)

(** C3, as stated, fails: the sample session that ran out of time is OVER
    and still holds its last problem. *)
Lemma problem_present_when_over :
  reachable finished /\ phase finished = OVER /\
  currentProblem (comp finished) = Some (mkProblem 6 6 Times (inject_Z 36)) /\
  ~ (currentProblem (comp finished) <> None <-> phase finished = PLAYING).
Proof.
  split; [apply reachable_run, reach_initial |].
  split; [vm_compute; reflexivity |].
  split; [vm_compute; reflexivity |].
  intros [H _].
  assert (E : phase finished = PLAYING)
    by (apply H; vm_compute; discriminate).
  vm_compute in E. discriminate E.
Qed.

(** C3, amended: in every reachable state the current problem is present if
    and only if the phase is PLAYING or OVER; it is absent exactly on the
    start screen (IDLE), and a session that went OVER keeps its last
    problem. *)
Theorem problem_present_iff w :
  reachable w ->
  (currentProblem (comp w) <> None <-> phase w = PLAYING \/ phase w = OVER) /\
  (currentProblem (comp w) = None <-> phase w = IDLE).
Proof.
  intros Hr. apply reachable_Inv in Hr.
  destruct w as [[sc tl cp ua msg go gs pt tr] [ivs nh rs dr]].
  unfold Inv in Hr; simpl in Hr. destruct Hr as (Htl & Hsc & H).
  unfold phase; simpl.
  destruct gs, go; try contradiction.
  - destruct H as [_ Hcp]. repeat split; auto; try discriminate; congruence.
  - destruct H as (_ & _ & _ & Hcp).
    repeat split; auto; try discriminate; congruence.
  - destruct H as (_ & _ & _ & -> & _).
    repeat split; auto; try discriminate; try congruence.
    intros [E | E]; discriminate E.
Qed.

Lemma problem_present_iff_witness :
  reachable finished /\
  (currentProblem (comp finished) <> None <->
     phase finished = PLAYING \/ phase finished = OVER) /\
  (currentProblem (comp finished) = None <-> phase finished = IDLE).
Proof.
  split; [apply reachable_run, reach_initial |].
  apply (problem_present_iff finished).
  apply reachable_run, reach_initial.
Defined.

(* ------------------------------------------------------------------ *)
(** ** The last tick (C4) *)

(** C4, as stated, fails: one tick of the sample session with 1 second left
    gives OVER with 0 seconds, but the current problem is still there. *)
Lemma last_tick_keeps_problem :
  reachable oneLeft /\
  phase oneLeft = PLAYING /\
  timeLeft (comp oneLeft) = 1 /\
  phase (tick oneLeft) = OVER /\
  timeLeft (comp (tick oneLeft)) = 0 /\
  currentProblem (comp (tick oneLeft))
    = Some (mkProblem 6 6 Times (inject_Z 36)) /\
  currentProblem (comp (tick oneLeft)) <> None.
Proof.
  split; [apply reachable_run, reach_initial |].
  repeat split; try (vm_compute; reflexivity).
  vm_compute; discriminate.
Qed.

(** C4, amended: one tick of a reachable PLAYING session with 1 second left
    gives phase OVER and 0 seconds left; the current problem is not cleared,
    it stays the problem that was shown. *)
Theorem last_tick w :
  reachable w ->
  phase w = PLAYING ->
  timeLeft (comp w) = 1 ->
  phase (tick w) = OVER /\
  timeLeft (comp (tick w)) = 0 /\
  currentProblem (comp (tick w)) = currentProblem (comp w) /\
  currentProblem (comp (tick w)) <> None.
Proof.
  intros Hr Hph Htl1. apply reachable_Inv in Hr.
  destruct (phase_PLAYING w Hph) as [Hgs Hgo].
  destruct w as [[sc tl cp ua msg go gs pt tr] [ivs nh rs dr]].
  unfold Inv in Hr; simpl in *. subst gs go tl.
  destruct Hr as (_ & _ & (h & -> & ->) & Hcp).
  unfold tick, step, dispatch, handler, execState, intervalFires,
    timerCallback.
  exec. rewrite ?Pos.eqb_refl. exec. auto.
Qed.

Lemma last_tick_witness :
  reachable oneLeft /\ phase oneLeft = PLAYING /\
  timeLeft (comp oneLeft) = 1 /\
  phase (tick oneLeft) = OVER /\
  timeLeft (comp (tick oneLeft)) = 0 /\
  currentProblem (comp (tick oneLeft)) = currentProblem (comp oneLeft) /\
  currentProblem (comp (tick oneLeft)) <> None.
Proof.
  split; [apply reachable_run, reach_initial |].
  split; [reflexivity |]. split; [reflexivity |].
  apply (last_tick oneLeft);
    [apply reachable_run, reach_initial | reflexivity | reflexivity].
Defined.

(* ------------------------------------------------------------------ *)
(** ** An input that is no number (C5) *)

(** C5, as stated, fails: the input abc does not parse, and submitting it
    right after the start takes the time from 60 to 50. *)
Lemma unparsable_costs_time :
  parseInt "abc" = None /\
  phase started = PLAYING /\
  timeLeft (comp started) = 60 /\
  timeLeft (comp (submitAnswer "abc" started)) = 50 /\
  timeLeft (comp (submitAnswer "abc" started)) <> timeLeft (comp started).
Proof.
  repeat split; try (vm_compute; reflexivity).
  vm_compute; discriminate.
Qed.

(** C5, amended: an input that does not parse as an integer, submitted in a
    PLAYING session with a current problem, leaves the score as it is and
    counts as an incorrect answer: the time becomes max(0, time - 10) and the
    message is the incorrect-answer message. *)
Theorem unparsable_input w rawInput problem :
  parseInt rawInput = None ->
  phase w = PLAYING ->
  currentProblem (comp w) = Some problem ->
  let w' := submitAnswer rawInput w in
  score (comp w') = score (comp w) /\
  timeLeft (comp w') = Z.max 0 (timeLeft (comp w) - 10) /\
  message (comp w') = IncorrectMsg (answer problem).
Proof.
  intros Hparse Hph Hcp.
  destruct (phase_PLAYING w Hph) as [Hgs Hgo].
  destruct w as [[sc tl cp ua msg go gs pt tr] [ivs nh rs dr]].
  simpl in Hcp, Hgs, Hgo. subst cp gs go.
  unfold submitAnswer, step, dispatch, handler, execState, handleAnswerSubmit.
  exec. rewrite Hparse. unfold strictEq. exec. auto.
Qed.

Lemma unparsable_input_witness :
  parseInt "abc" = None /\ phase started = PLAYING /\
  currentProblem (comp started) = Some (mkProblem 3 4 Plus (inject_Z 7)) /\
  score (comp (submitAnswer "abc" started)) = score (comp started) /\
  timeLeft (comp (submitAnswer "abc" started))
    = Z.max 0 (timeLeft (comp started) - 10) /\
  message (comp (submitAnswer "abc" started)) = IncorrectMsg (inject_Z 7).
Proof.
  split; [reflexivity |]. split; [reflexivity |]. split; [reflexivity |].
  apply (unparsable_input started "abc" (mkProblem 3 4 Plus (inject_Z 7)));
    reflexivity.
Defined.

(* ------------------------------------------------------------------ *)
(** ** The generated problems (C6) *)

(** C6: whatever the problem type and the random numbers, [generateProblem]
    installs a problem whose answer is a non-negative integer; if its
    operator is the minus sign, the first operand is at least the second;
    if it is the division sign, the first operand is a multiple of the
    second (the second is at least 1, the first is the answer times the
    second). *)
Theorem generated_problem_shape (w : World) :
  exists p,
    currentProblem (comp (execState generateProblem w)) = Some p /\
    (exists z, (answer p == inject_Z z)%Q /\ 0 <= z /\
               (operator p = Slash -> num1 p = z * num2 p)) /\
    (operator p = Minus -> num1 p >= num2 p) /\
    (operator p = Slash -> 1 <= num2 p /\ num1 p mod num2 p = 0).
Proof.
  destruct (generateProblem_run w) as (p & Hwf & Hnext & _).
  exists p. split; [exact Hnext | exact Hwf].
Qed.

(* ------------------------------------------------------------------ *)
(** ** A correct answer (C7) *)

(** C7: in a PLAYING session with a current problem, an input whose parsed
    integer equals the problem's answer adds 1 to the score and 30 to the
    time, sets the correct-answer message and installs the problem the
    generator produces next; the session stays PLAYING.  In particular, for
    the problem 3 + 4 = 7 at 60 seconds the input is 7 and the time becomes
    90. *)
Theorem correct_answer w rawInput problem z :
  phase w = PLAYING ->
  currentProblem (comp w) = Some problem ->
  parseInt rawInput = Some z ->
  (inject_Z z == answer problem)%Q ->
  let w' := submitAnswer rawInput w in
  score (comp w') = score (comp w) + 1 /\
  timeLeft (comp w') = timeLeft (comp w) + 30 /\
  message (comp w') = CorrectMsg /\
  currentProblem (comp w') = nextProblem w /\
  (exists p, currentProblem (comp w') = Some p) /\
  phase w' = PLAYING /\
  (problem = mkProblem 3 4 Plus (inject_Z 7) -> timeLeft (comp w) = 60 ->
   z = 7 /\ timeLeft (comp w') = 90).
Proof.
  intros Hph Hcp Hparse Heq.
  destruct (phase_PLAYING w Hph) as [Hgs Hgo].
  destruct w as [[sc tl cp ua msg go gs pt tr] [ivs nh rs dr]].
  simpl in Hcp, Hgs, Hgo. subst cp gs go.
  unfold submitAnswer, step, dispatch, handler, execState, handleAnswerSubmit.
  exec. rewrite Hparse. unfold strictEq.
  rewrite (proj2 (Qeq_bool_iff _ _) Heq). exec.
  repeat split.
  - rewrite <- Hn. apply nextProblem_frame. reflexivity.
  - eauto.
  - subst problem. apply (inject_Z_injective z 7). exact Heq.
  - lia.
Qed.

Lemma correct_answer_witness :
  phase started = PLAYING /\
  currentProblem (comp started) = Some (mkProblem 3 4 Plus (inject_Z 7)) /\
  parseInt "7" = Some 7 /\
  score (comp (submitAnswer "7" started)) = score (comp started) + 1 /\
  timeLeft (comp (submitAnswer "7" started)) = 90 /\
  message (comp (submitAnswer "7" started)) = CorrectMsg /\
  currentProblem (comp (submitAnswer "7" started)) = nextProblem started.
Proof.
  destruct (correct_answer started "7" (mkProblem 3 4 Plus (inject_Z 7)) 7
              eq_refl eq_refl eq_refl (Qeq_refl _))
    as (H1 & H2 & H3 & H4 & _ & _ & H7).
  split; [reflexivity |]. split; [reflexivity |]. split; [reflexivity |].
  split; [exact H1 |].
  split; [exact (proj2 (H7 eq_refl eq_refl)) |].
  split; [exact H3 | exact H4].
Defined.

(* ------------------------------------------------------------------ *)
(** ** Reset (C8) *)

(** C8: from any state, in whatever phase, reset gives phase IDLE (both
    flags false), score 0, 60 seconds, no current problem, the empty message
    and the empty input. *)
Theorem reset_clears (w : World) :
  let w' := reset w in
  phase w' = IDLE /\
  gameStarted (comp w') = false /\ isGameOver (comp w') = false /\
  score (comp w') = 0 /\
  timeLeft (comp w') = 60 /\
  currentProblem (comp w') = None /\
  message (comp w') = NoMessage /\
  userAnswer (comp w') = EmptyString.
Proof.
  destruct w as [[sc tl cp ua msg go gs pt tr] [ivs nh rs dr]].
  unfold reset, step, dispatch, handler, execState, resetGame, phase.
  destruct tr, gs, go; exec; repeat split.
Qed.

(* ------------------------------------------------------------------ *)
(** ** Calls outside PLAYING (C9) *)

(** C9: in a reachable state whose phase is IDLE or OVER, a tick changes
    nothing (no interval is set that could fire), a submission changes
    nothing, and submitting any raw input leaves phase, score, time, problem
    type, current problem and message as they are. *)
Theorem ignored_outside_playing w :
  reachable w ->
  phase w = IDLE \/ phase w = OVER ->
  tick w = w /\
  step Submit w = w /\
  forall rawInput,
    let w' := submitAnswer rawInput w in
    phase w' = phase w /\
    score (comp w') = score (comp w) /\
    timeLeft (comp w') = timeLeft (comp w) /\
    problemType (comp w') = problemType (comp w) /\
    currentProblem (comp w') = currentProblem (comp w) /\
    message (comp w') = message (comp w).
Proof.
  intros Hr Hph. apply reachable_Inv in Hr.
  destruct w as [[sc tl cp ua msg go gs pt tr] [ivs nh rs dr]].
  unfold Inv in Hr; simpl in Hr. destruct Hr as (_ & _ & H).
  unfold phase in Hph; simpl in Hph.
  unfold submitAnswer, tick, step, dispatch, handler, execState,
    intervalFires, handleAnswerSubmit, phase.
  destruct gs, go; try contradiction.
  - destruct Hph as [E | E]; discriminate E.
  - destruct H as (-> & -> & _). destruct cp; exec; repeat split.
  - destruct H as (-> & -> & _). destruct cp; exec; repeat split.
Qed.

Lemma ignored_outside_playing_witness :
  reachable finished /\ (phase finished = IDLE \/ phase finished = OVER) /\
  tick finished = finished /\
  step Submit finished = finished /\
  forall rawInput,
    let w' := submitAnswer rawInput finished in
    phase w' = phase finished /\
    score (comp w') = score (comp finished) /\
    timeLeft (comp w') = timeLeft (comp finished) /\
    problemType (comp w') = problemType (comp finished) /\
    currentProblem (comp w') = currentProblem (comp finished) /\
    message (comp w') = message (comp finished).
Proof.
  split; [apply reachable_run, reach_initial |].
  split; [right; reflexivity |].
  apply (ignored_outside_playing finished);
    [apply reachable_run, reach_initial | right; reflexivity].
Defined.

(* ------------------------------------------------------------------ *)
(** ** The two flags (C10) *)

(** C10: in every reachable state [gameStarted] and [isGameOver] are not
    both true, so the state is on exactly one of the three screens: IDLE
    with both flags false, PLAYING with [gameStarted] only, OVER with
    [isGameOver] only. *)
Theorem flags_exclusive w :
  reachable w ->
  gameStarted (comp w) && isGameOver (comp w) = false /\
  ((phase w = IDLE /\
      gameStarted (comp w) = false /\ isGameOver (comp w) = false) \/
   (phase w = PLAYING /\
      gameStarted (comp w) = true /\ isGameOver (comp w) = false) \/
   (phase w = OVER /\
      gameStarted (comp w) = false /\ isGameOver (comp w) = true)).
Proof.
  intros Hr. apply reachable_Inv in Hr.
  destruct Hr as (_ & _ & H). unfold phase.
  destruct (gameStarted (comp w)), (isGameOver (comp w));
    try contradiction; simpl; auto 10.
Qed.

Lemma flags_exclusive_witness :
  reachable finished /\
  gameStarted (comp finished) && isGameOver (comp finished) = false /\
  ((phase finished = IDLE /\
      gameStarted (comp finished) = false /\
      isGameOver (comp finished) = false) \/
   (phase finished = PLAYING /\
      gameStarted (comp finished) = true /\
      isGameOver (comp finished) = false) \/
   (phase finished = OVER /\
      gameStarted (comp finished) = false /\
      isGameOver (comp finished) = true)).
Proof.
  split; [apply reachable_run, reach_initial |].
  apply (flags_exclusive finished).
  apply reachable_run, reach_initial.
Defined.

(* ------------------------------------------------------------------ *)
(** ** More on the generator *)

Lemma nextProblem_build (w : World) :
  let rs := randoms (host w) in
  let d := drawn (host w) in
  let ops := operatorsOf (problemType (comp w)) in
  nextProblem w =
    Some (build
            (arrayAt ops (floorTimes (value (rs (S (S d))))
                            (Z.of_nat (List.length ops))))
            (floorTimes (value (rs d)) 10 + 1)
            (floorTimes (value (rs (S d))) 10 + 1)).
Proof.
  destruct w as [c b].
  unfold nextProblem, execState, generateProblem, operatorsOf, build.
  cbn -[floorTimes Z.add Z.mul Z.sub Qdiv inject_Z Z.ltb arrayAt push
        problemType_eqb].
  reflexivity.
Qed.

(** Every generated problem is built from an operator of the type's array
    and two numbers between 1 and 10; the fallback of the [switch] is never
    taken. *)
Lemma nextProblem_inv (w : World) :
  exists op a b,
    In op (operatorsOf (problemType (comp w))) /\
    1 <= a <= 10 /\ 1 <= b <= 10 /\
    nextProblem w = Some (build (Some op) a b).
Proof.
  rewrite nextProblem_build.
  destruct w as [c b]; cbn [comp host].
  pose proof (floorTimes_range (randoms b (drawn b)) 10 eq_refl) as R1.
  pose proof (floorTimes_range (randoms b (S (drawn b))) 10 eq_refl) as R2.
  pose proof (floorTimes_range (randoms b (S (S (drawn b)))) 1 eq_refl) as R31.
  pose proof (floorTimes_range (randoms b (S (S (drawn b)))) 4 eq_refl) as R34.
  set (x := floorTimes (value (randoms b (drawn b))) 10 + 1).
  set (y := floorTimes (value (randoms b (S (drawn b)))) 10 + 1).
  assert (Hx : 1 <= x <= 10) by (subst x; lia).
  assert (Hy : 1 <= y <= 10) by (subst y; lia).
  destruct (problemType c); cbn -[floorTimes arrayAt build].
  1-4: replace (floorTimes (value (randoms b (S (S (drawn b))))) 1) with 0 by lia.
  5: set (k := floorTimes (value (randoms b (S (S (drawn b))))) 4) in *;
     assert (Hk : k = 0 \/ k = 1 \/ k = 2 \/ k = 3) by lia;
     destruct Hk as [-> | [-> | [-> | ->]]].
  all: lookup; eexists _, x, y;
       (split; [| split; [exact Hx | split; [exact Hy | reflexivity]]]);
       simpl; auto.
Qed.

Lemma build_minus_cases (a b : Z) :
  build (Some Minus) a b =
    mkProblem (Z.max a b) (Z.min a b) Minus
      (inject_Z (Z.max a b - Z.min a b)).
Proof.
  unfold build. destruct (Z.ltb_spec a b).
  - rewrite Z.max_r, Z.min_l by lia. reflexivity.
  - rewrite Z.max_l, Z.min_r by lia. reflexivity.
Qed.

(** X1: the stored answer of every generated problem is the value of the
    expression shown, [num1 operator num2], also after the swap of a
    subtraction and the replacement of [num1] by the product in a
    division. *)
Theorem generated_answer_is_shown_value (w : World) :
  exists p, nextProblem w = Some p /\ (answer p == shownValue p)%Q.
Proof.
  destruct (nextProblem_inv w) as (op & a & b & _ & _ & _ & E).
  eexists; split; [exact E |].
  destruct op; [| rewrite build_minus_cases | |]; unfold shownValue; simpl.
  - rewrite inject_Z_plus. reflexivity.
  - unfold Z.sub, Qminus. rewrite inject_Z_plus, inject_Z_opp. reflexivity.
  - rewrite inject_Z_mult. reflexivity.
  - reflexivity.
Qed.

(** X2: in every generated problem the second operand is between 1 and 10;
    the first is between 1 and 10 too, except in a division, where it is
    between 1 and 100.  The answer is an integer between 2 and 20 for an
    addition, 0 and 9 for a subtraction, 1 and 100 for a multiplication and
    1 and 10 for a division. *)
Theorem generated_ranges (w : World) :
  exists p z,
    nextProblem w = Some p /\
    1 <= num2 p <= 10 /\
    (operator p <> Slash -> 1 <= num1 p <= 10) /\
    (operator p = Slash -> 1 <= num1 p <= 100) /\
    (answer p == inject_Z z)%Q /\
    match operator p with
    | Plus => 2 <= z <= 20
    | Minus => 0 <= z <= 9
    | Times => 1 <= z <= 100
    | Slash => 1 <= z <= 10
    end.
Proof.
  destruct (nextProblem_inv w) as (op & a & b & _ & Ha & Hb & E).
  rewrite E. destruct op; [| rewrite build_minus_cases | |].
  - exists (build (Some Plus) a b), (a + b); simpl.
    repeat split; intros; try lia; try discriminate; try congruence.
  - exists (mkProblem (Z.max a b) (Z.min a b) Minus
              (inject_Z (Z.max a b - Z.min a b))),
           (Z.max a b - Z.min a b); simpl.
    repeat split; intros; try lia; try discriminate; try congruence.
  - exists (build (Some Times) a b), (a * b); simpl.
    repeat split; intros; try nia; try discriminate; try congruence.
  - exists (build (Some Slash) a b), a; simpl.
    repeat split; intros; try nia; try discriminate; try congruence.
    rewrite inject_Z_mult. apply Qdiv_mult_l.
    intro H. apply (inject_Z_injective b 0) in H. lia.
Qed.

(** X3: the operator of a generated problem is the one of the problem type:
    plus for addition, minus for subtraction, the star for multiplication,
    the slash for division.  For the random type it is the entry of
    [+, -, *, /] at the index the third random number selects, so each
    quarter of [0, 1) gives one operator. *)
Theorem generated_operator (w : World) :
  exists p,
    nextProblem w = Some p /\
    match problemType (comp w) with
    | addition => operator p = Plus
    | subtraction => operator p = Minus
    | multiplication => operator p = Times
    | division => operator p = Slash
    | random =>
        arrayAt [Plus; Minus; Times; Slash]
          (floorTimes
             (value (randoms (host w) (S (S (drawn (host w)))))) 4)
        = Some (operator p)
    end.
Proof.
  rewrite nextProblem_build.
  destruct w as [c b]; cbn [comp host].
  pose proof (floorTimes_range (randoms b (S (S (drawn b)))) 1 eq_refl) as R31.
  pose proof (floorTimes_range (randoms b (S (S (drawn b)))) 4 eq_refl) as R34.
  eexists; split; [reflexivity |].
  destruct (problemType c); cbn -[floorTimes arrayAt build].
  1-4: replace (floorTimes (value (randoms b (S (S (drawn b))))) 1) with 0 by lia.
  5: set (k := floorTimes (value (randoms b (S (S (drawn b))))) 4) in *;
     assert (Hk : k = 0 \/ k = 1 \/ k = 2 \/ k = 3) by lia;
     destruct Hk as [-> | [-> | [-> | ->]]].
  all: repeat lookup; try rewrite build_minus_cases; reflexivity.
Qed.

(* ------------------------------------------------------------------ *)
(** ** Starting a game *)

(** X4: from any state whatever, [startGame] and the effects after it give
    a PLAYING session with score 0, 60 seconds, no message, an empty input,
    the problem type as it was, and a current problem.  Coming from the game
    screen this draws three random numbers; otherwise the flags change, the
    effect generates a second problem, and six are drawn. *)
Theorem start_fresh (w : World) :
  let w' := start w in
  phase w' = PLAYING /\
  score (comp w') = 0 /\
  timeLeft (comp w') = 60 /\
  message (comp w') = NoMessage /\
  userAnswer (comp w') = EmptyString /\
  problemType (comp w') = problemType (comp w) /\
  (exists p, currentProblem (comp w') = Some p) /\
  drawn (host w') =
    ((if showsGame (comp w) then 3 else 6) + drawn (host w))%nat.
Proof.
  destruct w as [[sc tl cp ua msg go gs pt tr] [ivs nh rs dr]].
  unfold start, step, dispatch, handler, execState, startGame, phase,
    showsGame.
  destruct tr, gs, go; exec; repeat split; eauto.
Qed.

(* ------------------------------------------------------------------ *)
(** ** The interval *)

(** X5: in every reachable state at most one interval is set.  While the
    session is PLAYING exactly one is, the one [timerRef] holds; in IDLE and
    OVER none is set and [timerRef] is null. *)
Theorem timer_discipline w :
  reachable w ->
  (List.length (intervals (host w)) <= 1)%nat /\
  (phase w = PLAYING ->
     exists h, timerRef (comp w) = Some h /\ intervals (host w) = [h]) /\
  (phase w <> PLAYING ->
     timerRef (comp w) = None /\ intervals (host w) = []).
Proof.
  intros Hr. apply reachable_Inv in Hr.
  destruct w as [[sc tl cp ua msg go gs pt tr] [ivs nh rs dr]].
  unfold Inv in Hr; simpl in Hr. destruct Hr as (_ & _ & H).
  unfold phase; simpl.
  destruct gs, go; try contradiction.
  - destruct H as [(h & -> & ->) _]. simpl.
    repeat split; intros; eauto; congruence.
  - destruct H as (-> & -> & _). simpl.
    repeat split; intros; auto; discriminate.
  - destruct H as (-> & -> & _). simpl.
    repeat split; intros; auto; discriminate.
Qed.

Lemma timer_discipline_witness :
  reachable oneLeft /\
  (List.length (intervals (host oneLeft)) <= 1)%nat /\
  (exists h, timerRef (comp oneLeft) = Some h /\
             intervals (host oneLeft) = [h]) /\
  reachable finished /\
  timerRef (comp finished) = None /\ intervals (host finished) = [].
Proof.
  assert (R1 : reachable oneLeft) by apply reachable_run, reach_initial.
  assert (R2 : reachable finished) by apply reachable_run, reach_initial.
  destruct (timer_discipline oneLeft R1) as (H1 & H2 & _).
  destruct (timer_discipline finished R2) as (_ & _ & H3).
  split; [exact R1 |]. split; [exact H1 |].
  split; [apply H2; reflexivity |].
  split; [exact R2 |].
  apply H3. vm_compute. discriminate.
Defined.

(* ------------------------------------------------------------------ *)
(** ** The score *)

(** X6: in any state, [startGame] and [resetGame] set the score to 0, a
    submission leaves it or adds exactly 1, and nothing else changes it: a
    tick, typing and the choice of a type keep the score. *)
Theorem score_step (e : Event) (w : World) :
  let s := score (comp w) in
  let s' := score (comp (step e w)) in
  match e with
  | Start | Reset => s' = 0
  | Submit => s' = s \/ s' = s + 1
  | Tick | TypeAnswer _ | SelectType _ => s' = s
  end.
Proof.
  destruct w as [[sc tl cp ua msg go gs pt tr] [ivs nh rs dr]].
  destruct e; unfold step, dispatch, handler, execState, startGame,
    resetGame, handleAnswerSubmit, intervalFires, timerCallback.
  - destruct tr, gs, go; exec; reflexivity.
  - destruct ivs as [| i ivs]; [destruct gs, go; exec; reflexivity |].
    exec. destruct (Z.leb_spec tl 1); destruct tr, gs, go; exec; reflexivity.
  - destruct gs, go; exec; reflexivity.
  - destruct cp as [problem |]; [| destruct gs, go; exec; auto].
    destruct gs, go; exec; auto.
    destruct (strictEq (parseInt ua) (answer problem)); exec; auto.
  - destruct tr, gs, go; exec; reflexivity.
  - destruct (problemType_eqb pt t) eqn:E; destruct tr, gs, go; exec;
      rewrite ?E; exec; reflexivity.
Qed.

(* ------------------------------------------------------------------ *)
(** ** Time and score together *)

(** Symbolic execution that leaves products alone. *)
Ltac execm :=
  repeat progress
    (cbn -[generateProblem Z.add Z.sub Z.mul Z.max Z.leb Z.ltb parseInt
           strictEq];
     unfold withProblem;
     rewrite ?problemType_eqb_refl;
     try generated).

Lemma time_bound_step e w :
  Inv w ->
  timeLeft (comp w) <= 60 + 30 * score (comp w) ->
  timeLeft (comp (step e w)) <= 60 + 30 * score (comp (step e w)).
Proof.
  destruct w as [[sc tl cp ua msg go gs pt tr] [ivs nh rs dr]].
  unfold Inv;
    cbn [comp host timeLeft score gameStarted isGameOver timerRef intervals
         currentProblem].
  intros (Htl & Hsc & H) Hb.
  destruct e; unfold step, dispatch, handler, execState, startGame,
    resetGame, handleAnswerSubmit, intervalFires, timerCallback.
  - destruct gs, go; try contradiction.
    + destruct H as [(h & -> & ->) _]. execm. lia.
    + destruct H as (-> & -> & _). execm. lia.
    + destruct H as (-> & -> & _). execm. lia.
  - destruct gs, go; try contradiction.
    + destruct H as [(h & -> & ->) _]. execm.
      destruct (Z.leb_spec tl 1); execm; lia.
    + destruct H as (-> & -> & _). execm. lia.
    + destruct H as (-> & -> & _). execm. lia.
  - destruct gs, go; try contradiction; execm; lia.
  - destruct gs, go; try contradiction.
    + destruct H as [(h & -> & ->) Hcp].
      destruct cp as [problem |]; [| congruence]. execm.
      destruct (strictEq (parseInt ua) (answer problem)); execm; lia.
    + destruct cp; execm; lia.
    + destruct cp; execm; lia.
  - destruct gs, go; try contradiction.
    + destruct H as [(h & -> & ->) _]. execm. lia.
    + destruct H as (-> & -> & _). execm. lia.
    + destruct H as (-> & -> & _). execm. lia.
  - destruct gs, go; try contradiction.
    + destruct H as [(h & -> & ->) _]. execm.
      destruct (problemType_eqb pt t); execm; lia.
    + execm. destruct (problemType_eqb pt t); execm; lia.
    + execm. destruct (problemType_eqb pt t); execm; lia.
Qed.

(** X7: in every reachable state the score and the time are not negative,
    and the time is at most 60 + 30 * score: only a correct answer adds
    time, 30 seconds for each point. *)
Theorem time_within_score w :
  reachable w ->
  0 <= score (comp w) /\
  0 <= timeLeft (comp w) <= 60 + 30 * score (comp w).
Proof.
  intros Hr.
  assert (Hb : timeLeft (comp w) <= 60 + 30 * score (comp w)).
  { induction Hr as [rs | e w Hr IH].
    - simpl. lia.
    - apply time_bound_step; [apply reachable_Inv, Hr | exact IH]. }
  apply reachable_Inv in Hr. destruct Hr as (Htl & Hsc & _). lia.
Qed.

Lemma time_within_score_witness :
  reachable (submitAnswer "7" started) /\
  0 <= score (comp (submitAnswer "7" started)) /\
  0 <= timeLeft (comp (submitAnswer "7" started))
    <= 60 + 30 * score (comp (submitAnswer "7" started)).
Proof.
  assert (R : reachable (submitAnswer "7" started))
    by (apply reach_step, reach_step, reachable_run, reach_initial).
  split; [exact R | exact (time_within_score _ R)].
Defined.

(* ------------------------------------------------------------------ *)
(** ** The countdown *)

(** A tick of a reachable PLAYING session with more than 1 second left
    takes one second off and changes nothing else. *)
Lemma tick_playing w :
  reachable w ->
  phase w = PLAYING ->
  1 < timeLeft (comp w) ->
  tick w = mkWorld (withTime (timeLeft (comp w) - 1) (comp w)) (host w).
Proof.
  intros Hr Hph Ht. apply reachable_Inv in Hr.
  destruct (phase_PLAYING w Hph) as [Hgs Hgo].
  destruct w as [[sc tl cp ua msg go gs pt tr] [ivs nh rs dr]].
  unfold Inv in Hr; simpl in *. subst gs go.
  destruct Hr as (_ & _ & (h & -> & ->) & _).
  unfold tick, step, dispatch, handler, execState, intervalFires,
    timerCallback, withTime.
  exec. destruct (Z.leb_spec tl 1); [lia |]. exec. reflexivity.
Qed.

Lemma ticks_keep_playing (n : nat) w :
  reachable w ->
  phase w = PLAYING ->
  Z.of_nat n < timeLeft (comp w) ->
  phase (run (repeat Tick n) w) = PLAYING /\
  timeLeft (comp (run (repeat Tick n) w)) = timeLeft (comp w) - Z.of_nat n.
Proof.
  revert w. induction n as [| n IH]; intros w Hr Hph Ht.
  - simpl. split; [exact Hph | lia].
  - change (run (repeat Tick (S n)) w) with (run (repeat Tick n) (tick w)).
    assert (Hr' : reachable (tick w)) by apply reach_step, Hr.
    rewrite (tick_playing w Hr Hph) in * by lia.
    destruct (IH _ Hr') as [P T].
    + unfold phase in *; simpl. exact Hph.
    + simpl. lia.
    + split; [exact P |]. rewrite T. simpl. lia.
Qed.

(** X8: [n] ticks in a row, with [n] less than the time left, take exactly
    [n] seconds off a reachable PLAYING session and change nothing else,
    neither in the component (flags, score, problem, message, input) nor in
    the browser. *)
Theorem countdown (n : nat) w :
  reachable w ->
  phase w = PLAYING ->
  Z.of_nat n < timeLeft (comp w) ->
  run (repeat Tick n) w =
    mkWorld (withTime (timeLeft (comp w) - Z.of_nat n) (comp w)) (host w).
Proof.
  revert w. induction n as [| n IH]; intros w Hr Hph Ht.
  - simpl. destruct w as [[sc tl cp ua msg go gs pt tr] b].
    unfold withTime; simpl. rewrite Z.sub_0_r. reflexivity.
  - change (run (repeat Tick (S n)) w) with (run (repeat Tick n) (tick w)).
    assert (Hr' : reachable (tick w)) by apply reach_step, Hr.
    rewrite (tick_playing w Hr Hph) in * by lia.
    rewrite IH.
    + unfold withTime; simpl. f_equal. f_equal. lia.
    + exact Hr'.
    + unfold phase in *; simpl. exact Hph.
    + simpl. lia.
Qed.

Lemma countdown_witness :
  reachable started /\ phase started = PLAYING /\
  Z.of_nat 59 < timeLeft (comp started) /\
  run (repeat Tick 59) started
    = mkWorld (withTime 1 (comp started)) (host started).
Proof.
  assert (R : reachable started) by apply reachable_run, reach_initial.
  split; [exact R |]. split; [reflexivity |]. split; [reflexivity |].
  exact (countdown 59 started R eq_refl eq_refl).
Defined.

(** X9: a reachable PLAYING session that gets no answers is OVER after as
    many ticks as it has seconds left, and after one tick if it has none;
    the time is then 0 and no interval is set any more. *)
Theorem runs_out w :
  reachable w ->
  phase w = PLAYING ->
  let w' := run (repeat Tick (Z.to_nat (Z.max 1 (timeLeft (comp w))))) w in
  phase w' = OVER /\ timeLeft (comp w') = 0 /\ intervals (host w') = [].
Proof.
  intros Hr Hph.
  pose proof (reachable_Inv w Hr) as (Htl & _ & _).
  set (t := timeLeft (comp w)) in *.
  replace (Z.to_nat (Z.max 1 t)) with (Z.to_nat (Z.max 1 t - 1) + 1)%nat
    by lia.
  rewrite repeat_app. unfold run. rewrite fold_left_app.
  fold (run (repeat Tick (Z.to_nat (Z.max 1 t - 1))) w).
  assert (Hlast :
    forall v, reachable v -> phase v = PLAYING -> timeLeft (comp v) <= 1 ->
      phase (tick v) = OVER /\ timeLeft (comp (tick v)) = 0 /\
      intervals (host (tick v)) = []).
  { clear. intros v Hr Hph Ht. apply reachable_Inv in Hr.
    destruct (phase_PLAYING v Hph) as [Hgs Hgo].
    destruct v as [[sc tl cp ua msg go gs pt tr] [ivs nh rs dr]].
    unfold Inv in Hr; simpl in *. subst gs go.
    destruct Hr as (_ & _ & (h & -> & ->) & _).
    unfold tick, step, dispatch, handler, execState, intervalFires,
      timerCallback.
    exec. destruct (Z.leb_spec tl 1); [| lia].
    exec. rewrite ?Pos.eqb_refl. exec. auto. }
  set (k := Z.to_nat (Z.max 1 t - 1)).
  cbn [repeat fold_left]. fold (tick (run (repeat Tick k) w)).
  assert (Rk : reachable (run (repeat Tick k) w)) by apply reachable_run, Hr.
  destruct (Z.le_gt_cases t 1) as [Hle | Hgt].
  - replace k with 0%nat in * by lia. apply Hlast; assumption.
  - assert (Hk : Z.of_nat k < timeLeft (comp w)) by (fold t; lia).
    destruct (ticks_keep_playing k w Hr Hph Hk) as [P T]. fold t in T.
    apply Hlast; [exact Rk | exact P | rewrite T; lia].
Qed.

Lemma runs_out_witness :
  reachable started /\ phase started = PLAYING /\
  phase (run (repeat Tick 60) started) = OVER /\
  timeLeft (comp (run (repeat Tick 60) started)) = 0 /\
  intervals (host (run (repeat Tick 60) started)) = [].
Proof.
  assert (R : reachable started) by apply reachable_run, reach_initial.
  split; [exact R |]. split; [reflexivity |].
  exact (runs_out started R eq_refl).
Defined.

(* ------------------------------------------------------------------ *)
(** ** What a submission leaves alone *)

(** X10: in any state, a submission changes neither of the two flags, so it
    never starts, ends or resets a game; it leaves the problem type,
    [timerRef] and the intervals alone; and it never lowers the score. *)
Theorem submit_keeps_phase (w : World) :
  let w' := step Submit w in
  gameStarted (comp w') = gameStarted (comp w) /\
  isGameOver (comp w') = isGameOver (comp w) /\
  phase w' = phase w /\
  problemType (comp w') = problemType (comp w) /\
  timerRef (comp w') = timerRef (comp w) /\
  intervals (host w') = intervals (host w) /\
  score (comp w) <= score (comp w').
Proof.
  destruct w as [[sc tl cp ua msg go gs pt tr] [ivs nh rs dr]].
  unfold step, dispatch, handler, execState, handleAnswerSubmit, phase.
  destruct cp as [problem |]; destruct gs, go; exec;
    try (destruct (strictEq (parseInt ua) (answer problem)); exec);
    repeat split; lia.
Qed.

(* ------------------------------------------------------------------ *)
(** ** Reset twice *)

(** X11: resetting twice is the same as resetting once, in any state: the
    second [resetGame] finds the defaults, no handle in [timerRef], and
    changes nothing in the component or the browser. *)
Theorem reset_idempotent (w : World) : reset (reset w) = reset w.
Proof.
  destruct w as [[sc tl cp ua msg go gs pt tr] [ivs nh rs dr]].
  unfold reset, step, dispatch, handler, execState, resetGame.
  destruct tr, gs, go; exec; reflexivity.
Qed.

(* ------------------------------------------------------------------ *)
(** ** What the parsing overlooks *)

Lemma digits_app (s tail : string) (acc : option Z) :
  noDigitAhead tail = true -> digits acc (s ++ tail) = digits acc s.
Proof.
  intros Htail. revert acc.
  induction s as [| c s IH]; intros acc; simpl.
  - destruct tail as [| c tail]; simpl in *; [reflexivity |].
    destruct (digitOf c); [discriminate | reflexivity].
  - destruct (digitOf c); [apply IH | reflexivity].
Qed.

Lemma trimStart_app (s tail : string) :
  trimStart s <> EmptyString -> trimStart (s ++ tail) = (trimStart s ++ tail)%string.
Proof.
  induction s as [| c s IH]; simpl; intros H.
  - congruence.
  - destruct (isWhiteSpace c); [apply IH, H | reflexivity].
Qed.

Lemma trimStart_leading (ws s : string) :
  allWhiteSpace ws = true -> trimStart (ws ++ s) = trimStart s.
Proof.
  induction ws as [| c ws IH]; simpl; intros H; [reflexivity |].
  apply andb_true_iff in H as [Hc Hws]. rewrite Hc. apply IH, Hws.
Qed.

Lemma parseInt_app (raw tail : string) :
  parseInt raw <> None -> noDigitAhead tail = true ->
  parseInt (raw ++ tail) = parseInt raw.
Proof.
  intros Hraw Htail. unfold parseInt in *.
  destruct (trimStart raw) as [| c rest] eqn:E.
  - simpl in Hraw. congruence.
  - rewrite trimStart_app by congruence. rewrite E.
    change (String c rest ++ tail)%string with (String c (rest ++ tail)).
    destruct c as [[] [] [] [] [] [] [] []];
      rewrite ?digits_app by exact Htail;
      try reflexivity;
      match goal with
      | |- context [digits None (String ?a (rest ++ tail))] =>
          change (String a (rest ++ tail)) with (String a rest ++ tail)%string;
          rewrite digits_app by exact Htail; reflexivity
      end.
Qed.

Lemma parseInt_leading (ws raw : string) :
  allWhiteSpace ws = true -> parseInt (ws ++ raw) = parseInt raw.
Proof.
  intros H. unfold parseInt. rewrite trimStart_leading by exact H.
  reflexivity.
Qed.

(** What a submission does with the input depends on its parse only. *)
Lemma submit_by_parse (w : World) (s1 s2 : string) :
  phase w = PLAYING -> currentProblem (comp w) <> None ->
  parseInt s1 = parseInt s2 ->
  submitAnswer s1 w = submitAnswer s2 w.
Proof.
  intros Hph Hcp E.
  destruct (phase_PLAYING w Hph) as [Hgs Hgo].
  destruct w as [[sc tl cp ua msg go gs pt tr] [ivs nh rs dr]].
  simpl in Hcp, Hgs, Hgo. subst gs go.
  destruct cp as [problem |]; [| congruence].
  unfold submitAnswer, step, dispatch, handler, execState, handleAnswerSubmit.
  repeat progress
    (cbn -[generateProblem Z.add Z.sub Z.max Z.leb Z.ltb parseInt strictEq];
     rewrite ?problemType_eqb_refl).
  rewrite E.
  destruct (strictEq (parseInt s2) (answer problem)); reflexivity.
Qed.

(** X12: in a PLAYING session with a problem, text after the number is
    overlooked: an input that parses, followed by anything that does not
    begin with a digit (a decimal point and a fraction, an exponent, a
    letter), is handled exactly as the input alone.  So 7.5 and 7e2 count as
    the answer 7. *)
Theorem text_after_number_overlooked w rawInput tail :
  phase w = PLAYING ->
  currentProblem (comp w) <> None ->
  parseInt rawInput <> None ->
  noDigitAhead tail = true ->
  submitAnswer (rawInput ++ tail) w = submitAnswer rawInput w.
Proof.
  intros Hph Hcp Hraw Htail.
  apply submit_by_parse; [exact Hph | exact Hcp |].
  apply parseInt_app; assumption.
Qed.

Lemma text_after_number_overlooked_witness :
  phase started = PLAYING /\
  currentProblem (comp started) <> None /\
  parseInt "7" <> None /\
  noDigitAhead ".5" = true /\
  submitAnswer "7.5" started = submitAnswer "7" started /\
  score (comp (submitAnswer "7.5" started)) = 1.
Proof.
  assert (H1 : currentProblem (comp started) <> None)
    by (vm_compute; discriminate).
  assert (H2 : parseInt "7" <> None) by (vm_compute; discriminate).
  pose proof (text_after_number_overlooked started "7" ".5"
                eq_refl H1 H2 eq_refl) as E.
  split; [reflexivity |]. split; [exact H1 |]. split; [exact H2 |].
  split; [reflexivity |]. split; [exact E |].
  change ("7" ++ ".5")%string with "7.5"%string in E. rewrite E.
  reflexivity.
Defined.

(** X13: in a PLAYING session with a problem, white space before the input
    (blanks, tabs, line ends) is overlooked: the submission is handled as
    the input without it. *)
Theorem space_before_number_overlooked w ws rawInput :
  phase w = PLAYING ->
  currentProblem (comp w) <> None ->
  allWhiteSpace ws = true ->
  submitAnswer (ws ++ rawInput) w = submitAnswer rawInput w.
Proof.
  intros Hph Hcp Hws.
  apply submit_by_parse; [exact Hph | exact Hcp |].
  apply parseInt_leading, Hws.
Qed.

Lemma space_before_number_overlooked_witness :
  phase started = PLAYING /\
  currentProblem (comp started) <> None /\
  allWhiteSpace "  " = true /\
  submitAnswer "  7" started = submitAnswer "7" started.
Proof.
  assert (H1 : currentProblem (comp started) <> None)
    by (vm_compute; discriminate).
  split; [reflexivity |]. split; [exact H1 |]. split; [reflexivity |].
  exact (space_before_number_overlooked started "  " "7" eq_refl H1 eq_refl).
Defined.

(* ------------------------------------------------------------------ *)
(** ** No time left is not yet the end *)

(** X14: a reachable PLAYING session whose time a wrong answer has brought
    to 0 is not lost yet: a correct answer before the next tick gives 30
    seconds, and the tick after it leaves the session PLAYING with 29. *)
Theorem correct_answer_at_zero w rawInput problem :
  reachable w ->
  phase w = PLAYING ->
  timeLeft (comp w) = 0 ->
  currentProblem (comp w) = Some problem ->
  strictEq (parseInt rawInput) (answer problem) = true ->
  let w' := submitAnswer rawInput w in
  phase w' = PLAYING /\ timeLeft (comp w') = 30 /\
  phase (tick w') = PLAYING /\ timeLeft (comp (tick w')) = 29.
Proof.
  intros Hr Hph Ht Hcp Heq. apply reachable_Inv in Hr.
  destruct (phase_PLAYING w Hph) as [Hgs Hgo].
  destruct w as [[sc tl cp ua msg go gs pt tr] [ivs nh rs dr]].
  unfold Inv in Hr; simpl in *. subst gs go tl cp.
  destruct Hr as (_ & _ & (h & -> & ->) & _).
  unfold submitAnswer, tick, step, dispatch, handler, execState,
    handleAnswerSubmit, intervalFires, timerCallback.
  exec. rewrite Heq. exec.
  change (0 + 30 <=? 1) with false. exec. repeat split.
Qed.

Lemma correct_answer_at_zero_witness :
  reachable outOfTime /\ phase outOfTime = PLAYING /\
  timeLeft (comp outOfTime) = 0 /\
  currentProblem (comp outOfTime) = Some (mkProblem 6 6 Times (inject_Z 36)) /\
  strictEq (parseInt "36") (inject_Z 36) = true /\
  phase (submitAnswer "36" outOfTime) = PLAYING /\
  timeLeft (comp (submitAnswer "36" outOfTime)) = 30 /\
  phase (tick (submitAnswer "36" outOfTime)) = PLAYING /\
  timeLeft (comp (tick (submitAnswer "36" outOfTime))) = 29.
Proof.
  assert (R : reachable outOfTime) by apply reachable_run, reach_initial.
  split; [exact R |]. split; [reflexivity |]. split; [reflexivity |].
  split; [reflexivity |]. split; [reflexivity |].
  exact (correct_answer_at_zero outOfTime "36"
           (mkProblem 6 6 Times (inject_Z 36)) R eq_refl eq_refl eq_refl
           eq_refl).
Defined.

(* ------------------------------------------------------------------ *)
(** ** Choosing the problem type *)

(** X15: choosing a problem type sets the type and touches no timer.  Off
    the game screen nothing else happens: no problem is generated and no
    random number drawn.  On the game screen a type different from the
    present one makes the effect replace the problem by a generated one of
    the new type; the same type changes nothing. *)
Theorem select_type (t : ProblemType) (w : World) :
  step (SelectType t) w =
    if showsGame (comp w) && negb (problemType_eqb (problemType (comp w)) t)
    then execState generateProblem (mkWorld (withType t (comp w)) (host w))
    else mkWorld (withType t (comp w)) (host w).
Proof.
  destruct w as [[sc tl cp ua msg go gs pt tr] [ivs nh rs dr]].
  unfold step, dispatch, handler, execState, showsGame, withType.
  cbn -[generateProblem].
  rewrite !Bool.eqb_reflx. cbn -[generateProblem].
  destruct (problemType_eqb pt t), gs, go; reflexivity.
Qed.

Lemma nextProblem_operator (w : World) (p : Problem) :
  nextProblem w = Some p ->
  In (operator p) (operatorsOf (problemType (comp w))).
Proof.
  intros E.
  destruct (nextProblem_inv w) as (op & a & b & Hin & _ & _ & E').
  rewrite E in E'. injection E' as ->.
  destruct op; simpl; try exact Hin.
  destruct (a <? b); exact Hin.
Qed.

Lemma select_type_sets (t : ProblemType) (w : World) :
  problemType (comp (step (SelectType t) w)) = t.
Proof.
  destruct w as [[sc tl cp ua msg go gs pt tr] [ivs nh rs dr]].
  unfold step, dispatch, handler, execState.
  destruct (problemType_eqb pt t) eqn:E; destruct gs, go; exec; rewrite ?E;
    exec; reflexivity.
Qed.

Lemma start_operator (w : World) :
  exists p,
    currentProblem (comp (start w)) = Some p /\
    In (operator p) (operatorsOf (problemType (comp w))).
Proof.
  destruct w as [[sc tl cp ua msg go gs pt tr] [ivs nh rs dr]].
  unfold start, step, dispatch, handler, execState, startGame.
  destruct tr, gs, go; exec;
    (eexists; split; [reflexivity |]);
    match goal with
    | H : nextProblem _ = Some ?q |- In (operator ?q) _ =>
        apply nextProblem_operator in H; exact H
    end.
Qed.

(** X16: whatever the state, choosing one of the four fixed types and then
    starting shows a problem of that type: its operator is plus for
    addition, minus for subtraction, the star for multiplication, the slash
    for division. *)
Theorem chosen_type_decides_operator (t : ProblemType) (w : World) :
  exists p,
    currentProblem (comp (start (step (SelectType t) w))) = Some p /\
    match t with
    | addition => operator p = Plus
    | subtraction => operator p = Minus
    | multiplication => operator p = Times
    | division => operator p = Slash
    | random => True
    end.
Proof.
  destruct (start_operator (step (SelectType t) w)) as (p & E & Hin).
  rewrite select_type_sets in Hin.
  exists p. split; [exact E |].
  destruct t; simpl in Hin; intuition congruence.
Qed.

(* ------------------------------------------------------------------ *)
(** ** Play again *)

(** X17: in a reachable state off the game screen, resetting before starting
    makes no difference: [resetGame] followed by [startGame] gives the same
    component and browser as [startGame] alone. *)
Theorem start_after_reset w :
  reachable w ->
  phase w <> PLAYING ->
  start (reset w) = start w.
Proof.
  intros Hr Hph. apply reachable_Inv in Hr.
  destruct w as [[sc tl cp ua msg go gs pt tr] [ivs nh rs dr]].
  unfold Inv in Hr; simpl in Hr. destruct Hr as (_ & _ & H).
  unfold phase in Hph; simpl in Hph.
  unfold start, reset, step, dispatch, handler, execState, startGame,
    resetGame.
  destruct gs, go; try contradiction; try congruence.
  - destruct H as (-> & -> & _).
    repeat progress (cbn -[generateProblem]; rewrite ?problemType_eqb_refl).
    reflexivity.
  - destruct H as (-> & -> & _).
    repeat progress (cbn -[generateProblem]; rewrite ?problemType_eqb_refl).
    reflexivity.
Qed.

Lemma start_after_reset_witness :
  reachable finished /\ phase finished <> PLAYING /\
  start (reset finished) = start finished.
Proof.
  assert (R : reachable finished) by apply reachable_run, reach_initial.
  assert (H : phase finished <> PLAYING) by (vm_compute; discriminate).
  split; [exact R |]. split; [exact H |].
  exact (start_after_reset finished R H).
Defined.

(* ------------------------------------------------------------------ *)
(** ** What a tick leaves alone *)

(** X18: in any state, a tick changes neither the score, the current
    problem, the message, the input nor the problem type, and it draws no
    random number: the interval callback only counts the time down and ends
    the game. *)
Theorem tick_frame (w : World) :
  let w' := tick w in
  score (comp w') = score (comp w) /\
  currentProblem (comp w') = currentProblem (comp w) /\
  message (comp w') = message (comp w) /\
  userAnswer (comp w') = userAnswer (comp w) /\
  problemType (comp w') = problemType (comp w) /\
  drawn (host w') = drawn (host w).
Proof.
  destruct w as [[sc tl cp ua msg go gs pt tr] [ivs nh rs dr]].
  unfold tick, step, dispatch, handler, execState, intervalFires,
    timerCallback.
  destruct ivs as [| i ivs]; [destruct gs, go; exec; repeat split |].
  exec. destruct (Z.leb_spec tl 1); destruct tr, gs, go; exec; repeat split.
Qed.
